(** * msprm: a liveness-based failover controller for PostgreSQL replicas

    Shallow embedding of [msprm.py] and verification of its failover
    decision engine: leader location, candidate selection, the
    cooldown-gated promotion policy, the role update and the replication
    fan-out of one pass of the control loop of [main].

    Conventions of the embedding.
    - A node is a Python [dict] read through [node.get(key)]; it is a
      record of optional fields, [None] standing for an absent key.
    - [list.sort(key=...)] is Python's stable ascending sort.
    - Timestamps ([time.time()], [last_promotion_time]) are Python floats:
      binary64 values with their rounding subtraction and IEEE comparisons,
      Rocq's primitive [float]. [promotion_cooldown] is the YAML number,
      an [int] or a [float].
    - The external collaborators (health probe, promotion command,
      replication command) are oracles of the [world] in which a pass runs;
      their calls are recorded in a trace of [event]s. A world describes
      calls that return: an exception raised inside [promote_node] or
      [reconfigure_replication] other than the [CalledProcessError] they
      catch (a template [str.format] cannot fill, command output that does
      not decode) ends the process and is not described. *)

From Stdlib Require Import List String ZArith Bool Lia Permutation Sorted.
From Stdlib Require Import Floats.PrimFloat Floats.SpecFloat Floats.FloatOps.
Import ListNotations.
Local Open Scope string_scope.
Local Open Scope list_scope.
Local Open Scope Z_scope.

(** ** Python helpers *)

Module Py.

(** [d.get(k)] on an absent key is [None]; [d.get(k, dflt)] is [dflt]. *)
Definition get_default {A : Type} (v : option A) (dflt : A) : A :=
  match v with
  | Some x => x
  | None => dflt
  end.

(** Truth value of [d.get(k)] for a boolean field. *)
Definition truthy (v : option bool) : bool :=
  match v with
  | Some b => b
  | None => false
  end.

(** [a == b] on optional strings ([None == None] holds). *)
Definition eqb_ostr (a b : option string) : bool :=
  match a, b with
  | Some x, Some y => String.eqb x y
  | None, None => true
  | _, _ => false
  end.

(** A number of the YAML file: an [int], or a [float] (a binary64
    value). *)
Inductive number : Type :=
| PyInt (z : Z)
| PyFloat (f : float).

(** [d >= z] for a float [d] and an int [z]: Python compares the two
    values exactly, without converting the int; a NaN is not above
    anything, the infinities are beyond every int. *)
Definition float_ge_int (d : float) (z : Z) : bool :=
  match Prim2SF d with
  | S754_nan => false
  | S754_infinity negative => negb negative
  | S754_zero _ => z <=? 0
  | S754_finite negative m e =>
      let n := if negative then Z.neg m else Z.pos m in
      if 0 <=? e then z <=? n * 2 ^ e else z * 2 ^ (- e) <=? n
  end.

(** [d >= c] for a float [d]; between two floats it is the IEEE
    comparison. *)
Definition float_ge (d : float) (c : number) : bool :=
  match c with
  | PyInt z => float_ge_int d z
  | PyFloat f => PrimFloat.leb f d
  end.

(** [l.sort(key=key)]: the stable ascending sort, as an insertion sort
    that places an element before the first one whose key is not
    smaller. *)
Section Sort.
Context {A : Type} (key : A -> Z).

Fixpoint insert_by (x : A) (l : list A) : list A :=
  match l with
  | [] => [x]
  | y :: l' => if key x <=? key y then x :: l else y :: insert_by x l'
  end.

Fixpoint sort (l : list A) : list A :=
  match l with
  | [] => []
  | x :: l' => insert_by x (sort l')
  end.

(** The order the sort establishes. *)
Definition key_le (a b : A) : Prop := key a <= key b.
End Sort.

End Py.

(** ** Data model *)

(** A member of the cluster: one entry of [config["nodes"]], with the
    transient [healthy] flag the control loop writes on it. *)
Record node : Type := mkNode {
  name : option string;
  host : option string;
  port : option Z;
  failover_order : option Z;
  role : option string;
  healthy : option bool
}.

Definition set_role (r : string) (n : node) : node :=
  mkNode (name n) (host n) (port n) (failover_order n) (Some r) (healthy n).

Definition set_healthy (h : bool) (n : node) : node :=
  mkNode (name n) (host n) (port n) (failover_order n) (role n) (Some h).

(** [n.get("failover_order", 9999)] *)
Definition order_key (n : node) : Z := Py.get_default (failover_order n) 9999.

(** [node.get("role") == "leader"] *)
Definition is_leader (n : node) : bool := Py.eqb_ostr (role n) (Some "leader").

(** [node.get("healthy")] as a condition *)
Definition is_healthy (n : node) : bool := Py.truthy (healthy n).

(** ** Role Updater, Leader Locator, Candidate Selector *)

Definition update_roles (nodes : list node) (new_leader_name : option string)
  : list node :=
  map (fun node =>
         if Py.eqb_ostr (name node) new_leader_name
         then set_role "leader" node
         else set_role "replica" node) nodes.

Definition get_current_leader (nodes : list node) : option node :=
  let leaders := filter is_leader nodes in
  match leaders with
  | [] => None
  | _ :: _ => hd_error (Py.sort order_key leaders)
  end.

Definition get_best_candidate (nodes : list node) : option node :=
  let healthy_nodes := filter is_healthy nodes in
  match healthy_nodes with
  | [] => None
  | _ :: _ => hd_error (Py.sort order_key healthy_nodes)
  end.

(** ** The control loop of [main] *)

(** The settings of [config] the decision engine reads. *)
Record config : Type := mkConfig {
  promotion_cooldown : Py.number;
  failback_enabled : bool
}.

(** The mutable state [main] carries from one pass of [while True] to the
    next: the node dicts and [last_promotion_time]. *)
Record state : Type := mkState {
  nodes : list node;
  last_promotion_time : float
}.

(** [last_promotion_time = 0] before the first pass: the int 0, which
    the subtraction from a float converts to the float 0.0. *)
Definition initial_state (config_nodes : list node) : state :=
  mkState config_nodes 0%float.

(** What the outside answers during one pass: the clock read at its top,
    the outcome of the health probe of the node at each position of
    [nodes], whether the promotion command exits with status zero, and
    whether the replication command run for the node at each position
    does. *)
Record world : Type := mkWorld {
  time_time : float;
  check_node_health : nat -> bool;
  promote_node : bool;
  reconfigure_replication : nat -> bool
}.

(** External commands run by a pass, in order. [EvPromote] is the call
    [promote_node(best_candidate, ...)] with the reason logged for it;
    [EvReconfigure] is the call
    [reconfigure_replication(best_candidate, node, ...)] with the success
    of its command. *)
Inductive event : Type :=
| EvPromote (reason : string) (candidate : node)
| EvReconfigure (new_leader target : node) (ok : bool).

(** The exception an order comparison with a [None] operand raises, the
    one exception the decision itself can raise. *)
Inductive exn : Type :=
| TypeError.

(** [a < b] on two [node.get("failover_order")] values. *)
Definition order_lt (a b : option Z) : exn + bool :=
  match a, b with
  | Some x, Some y => inr (x <? y)
  | _, _ => inl TypeError
  end.

(** [current_time - last_promotion_time >= promotion_cooldown] *)
Definition cooldown_over (cfg : config) (current_time last : float) : bool :=
  Py.float_ge (PrimFloat.sub current_time last) (promotion_cooldown cfg).

Definition reason_leader_down : string := "현재 leader 비정상".
Definition reason_failback : string :=
  "failback: 우선순위가 더 높은 노드가 건강함".

(** The decision of a pass: the values of [promotion_needed] and [reason]
    when the [if]/[else] ladder is left. *)
Definition promotion_policy (cfg : config) (current_time last : float)
  (current_leader best_candidate : option node) : exn + (bool * string) :=
  let leader_ok :=
    match current_leader with
    | Some l => is_healthy l
    | None => false
    end in
  if negb leader_ok then
    match best_candidate with
    | Some _ => inr (true, reason_leader_down)
    | None => inr (false, "")
    end
  else
    if failback_enabled cfg then
      match best_candidate, current_leader with
      | Some c, Some l =>
          match order_lt (failover_order c) (failover_order l) with
          | inl e => inl e
          | inr true =>
              if cooldown_over cfg current_time last
              then inr (true, reason_failback)
              else inr (false, "")
          | inr false => inr (false, "")
          end
      | _, _ => inr (false, "")
      end
    else inr (false, "").

(** The health loop: [node["healthy"] = check_node_health(node, ...)] for
    the nodes from position [i] on. *)
Fixpoint probe_from (w : world) (i : nat) (ns : list node) : list node :=
  match ns with
  | [] => []
  | n :: rest => set_healthy (check_node_health w i) n :: probe_from w (S i) rest
  end.

(** The replication loop over [nodes], from position [i] on. *)
Fixpoint dispatch_from (w : world) (best_candidate : node) (i : nat)
  (ns : list node) : list event :=
  match ns with
  | [] => []
  | n :: rest =>
      if negb (Py.eqb_ostr (name n) (name best_candidate)) && is_healthy n
      then EvReconfigure best_candidate n (reconfigure_replication w i)
             :: dispatch_from w best_candidate (S i) rest
      else dispatch_from w best_candidate (S i) rest
  end.

(** One pass of the body of [while True] (the final [time.sleep] apart).
    [best_candidate] is a reference to one of the dicts of [nodes]: once
    [update_roles] has run, it denotes that dict with its role rewritten,
    [set_role "leader" c]. *)
Definition cycle (cfg : config) (w : world) (st : state)
  : exn + (state * list event) :=
  let current_time := time_time w in
  let ns := probe_from w 0 (nodes st) in
  let current_leader := get_current_leader ns in
  let best_candidate := get_best_candidate ns in
  match promotion_policy cfg current_time (last_promotion_time st)
          current_leader best_candidate with
  | inl e => inl e
  | inr (promotion_needed, reason) =>
      match promotion_needed, best_candidate with
      | true, Some c =>
          if promote_node w then
            let ns' := update_roles ns (name c) in
            inr (mkState ns' current_time,
                 EvPromote reason c
                   :: dispatch_from w (set_role "leader" c) 0 ns')
          else inr (mkState ns (last_promotion_time st), [EvPromote reason c])
      | _, _ => inr (mkState ns (last_promotion_time st), [])
      end
  end.

(** Successive passes of the loop, one per element of [ws]; the traces
    are concatenated and an exception ends the run. *)
Fixpoint run (cfg : config) (ws : list world) (st : state)
  : exn + (state * list event) :=
  match ws with
  | [] => inr (st, [])
  | w :: ws' =>
      match cycle cfg w st with
      | inl e => inl e
      | inr (st1, tr1) =>
          match run cfg ws' st1 with
          | inl e => inl e
          | inr (st2, tr2) => inr (st2, tr1 ++ tr2)
          end
      end
  end.

(** The nodes as the health loop of a pass leaves them. *)
Definition probed (w : world) (st : state) : list node :=
  probe_from w 0 (nodes st).

(** A pass promotes [c] for [reason] when it calls [promote_node] on it
    after logging that reason. *)
Definition promotes (r : exn + (state * list event)) (reason : string)
  (c : node) : Prop :=
  exists st tr, r = inr (st, EvPromote reason c :: tr).

Definition requests_promotion (r : exn + (state * list event)) : Prop :=
  exists reason c, promotes r reason c.

Definition no_promotion (r : exn + (state * list event)) : Prop :=
  ~ requests_promotion r.

(** A pass takes no action: it runs no command and leaves roles and clock
    as they were. *)
Definition no_action (cfg : config) (w : world) (st : state) : Prop :=
  cycle cfg w st = inr (mkState (probed w st) (last_promotion_time st), []).

(** The reconfiguration targets of a trace, in call order. *)
Fixpoint targets (tr : list event) : list node :=
  match tr with
  | [] => []
  | EvPromote _ _ :: tr' => targets tr'
  | EvReconfigure _ t _ :: tr' => t :: targets tr'
  end.

(** ** Specification vocabulary *)

(** [c] is the member of [ns] that satisfies [p] with the lowest
    [order_key], the earliest one in list order among equals. *)
Definition first_lowest (p : node -> bool) (ns : list node) (c : node) : Prop :=
  exists l1 l2,
    ns = l1 ++ c :: l2 /\
    p c = true /\
    (forall x, In x l1 -> p x = true -> order_key c < order_key x) /\
    (forall x, In x l2 -> p x = true -> order_key c <= order_key x).

(** [a]'s [failover_order] is present and strictly below [b]'s. *)
Definition lower_order (a b : node) : Prop :=
  order_lt (failover_order a) (failover_order b) = inr true.

(** Both selectors are the head of the sorted filtered list. *)
Definition lowest (p : node -> bool) (ns : list node) : option node :=
  match filter p ns with
  | [] => None
  | _ :: _ => hd_error (Py.sort order_key (filter p ns))
  end.

(** What the selectors guarantee about a selected node [c] that has no
    [failover_order]: every eligible node with an explicit order has one of
    at least 9999, of more than 9999 when it precedes [c] in the list, and
    no eligible node without an order precedes [c]. *)
Definition selected_missing (p : node -> bool) (ns : list node) (c : node) : Prop :=
  exists l1 l2,
    ns = l1 ++ c :: l2 /\
    p c = true /\
    (forall n v, In n l1 -> p n = true -> failover_order n = Some v -> 9999 < v) /\
    (forall n v, In n l2 -> p n = true -> failover_order n = Some v -> 9999 <= v) /\
    (forall n, In n l1 -> p n = true -> failover_order n <> None).

(** ** Sample clusters *)

Module Sample.

(** The three nodes of [default_config] in [load_config]. *)
Definition node1 : node :=
  mkNode (Some "node1") (Some "127.0.0.1") (Some 5432) (Some 1) (Some "leader") None.
Definition node2 : node :=
  mkNode (Some "node2") (Some "127.0.0.2") (Some 5432) (Some 2) (Some "replica") None.
Definition node3 : node :=
  mkNode (Some "node3") (Some "127.0.0.3") (Some 5432) (Some 3) (Some "replica") None.
Definition default_nodes : list node := [node1; node2; node3].

(** [promotion_cooldown: 30], [failback_enabled: true] *)
Definition default_config : config := mkConfig (Py.PyInt 30) true.

(** The default cluster after a health loop in which [node1] is down. *)
Definition leader_down : list node :=
  [set_healthy false node1; set_healthy true node2; set_healthy true node3].

(** A cluster with two declared leaders. *)
Definition two_leaders : list node :=
  [set_role "leader" node3; node2; node1].

(** A node without [failover_order] ahead of one whose order is 9999;
    both are healthy and both are declared leader. *)
Definition unranked : node :=
  mkNode (Some "a") (Some "10.0.0.1") (Some 5432) None (Some "leader") (Some true).
Definition ranked_9999 : node :=
  mkNode (Some "b") (Some "10.0.0.2") (Some 5432) (Some 9999) (Some "leader") (Some true).
Definition tie_at_9999 : list node := [unranked; ranked_9999].

(** The default cluster with [node2] re-ranked ahead of the leader. *)
Definition node0 : node :=
  mkNode (Some "node2") (Some "127.0.0.2") (Some 5432) (Some 0) (Some "replica") None.
Definition failback_nodes : list node := [node1; node0].

(** Worlds in which the clock reads [t], every probe succeeds or only that
    of the first node fails, and commands succeed or the promotion fails. *)
Definition all_up (t : float) : world :=
  mkWorld t (fun _ => true) true (fun _ => true).
Definition first_down (t : float) : world :=
  mkWorld t (fun i => negb (Nat.eqb i 0)) true (fun _ => true).
Definition all_up_promotion_fails (t : float) : world :=
  mkWorld t (fun _ => true) false (fun _ => true).

End Sample.

(** ** Further vocabulary *)

(** The fields of a node the control loop never writes. *)
Definition static_fields (n : node)
  : option string * option string * option Z * option Z :=
  (name n, host n, port n, failover_order n).

(** A node as it is in [config["nodes"]], before any health loop. *)
Definition clear_healthy (n : node) : node :=
  mkNode (name n) (host n) (port n) (failover_order n) (role n) None.

(** More sample data. *)
Module Sample2.

(** A world in which every probe fails. *)
Definition all_down (t : float) : world :=
  mkWorld t (fun _ => false) true (fun _ => true).

(** The default nodes listed in another order. *)
Definition shuffled_nodes : list node :=
  [Sample.node3; Sample.node1; Sample.node2].

End Sample2.

(** ** Facts about the stable sort *)

(** [Py.sort] returns a sorted permutation of its argument and keeps
    elements of equal key in their order; these three properties of
    [list.sort] leave room for one result only ([stable_sort_unique]). *)

Section SortFacts.
Context {A : Type} (key : A -> Z).

Lemma insert_by_perm (x : A) (l : list A) :
  Permutation (x :: l) (Py.insert_by key x l).
Proof.
  induction l as [|y l IH]; simpl.
  - apply Permutation_refl.
  - destruct (key x <=? key y).
    + apply Permutation_refl.
    + eapply perm_trans; [apply perm_swap|].
      now apply perm_skip.
Qed.

Lemma sort_perm (l : list A) : Permutation l (Py.sort key l).
Proof.
  induction l as [|x l IH]; simpl.
  - apply perm_nil.
  - eapply perm_trans; [apply perm_skip, IH|apply insert_by_perm].
Qed.

Lemma insert_by_sorted (x : A) (l : list A) :
  Sorted (Py.key_le key) l -> Sorted (Py.key_le key) (Py.insert_by key x l).
Proof.
  induction l as [|y l IH]; simpl; intros Hs.
  - repeat constructor.
  - destruct (key x <=? key y) eqn:E.
    + constructor; [exact Hs|constructor; unfold Py.key_le; lia].
    + inversion Hs as [|? ? Hs' Hhd]; subst.
      constructor; [now apply IH|].
      destruct l as [|z l]; simpl.
      * constructor; unfold Py.key_le; lia.
      * destruct (key x <=? key z); constructor; unfold Py.key_le.
        -- lia.
        -- inversion Hhd; subst; assumption.
Qed.

Lemma sort_sorted (l : list A) : Sorted (Py.key_le key) (Py.sort key l).
Proof.
  induction l as [|x l IH]; simpl.
  - constructor.
  - now apply insert_by_sorted.
Qed.

(** Stability: elements with equal keys keep their relative order. *)
Lemma insert_by_stable (k : Z) (x : A) (l : list A) :
  filter (fun a => key a =? k) (Py.insert_by key x l)
  = filter (fun a => key a =? k) (x :: l).
Proof.
  induction l as [|y l IH]; simpl; [reflexivity|].
  destruct (key x <=? key y) eqn:E; simpl; [reflexivity|].
  simpl in IH. rewrite IH.
  destruct (key x =? k) eqn:Ex, (key y =? k) eqn:Ey; try reflexivity.
  lia.
Qed.

Lemma sort_stable (k : Z) (l : list A) :
  filter (fun a => key a =? k) (Py.sort key l)
  = filter (fun a => key a =? k) l.
Proof.
  induction l as [|x l IH]; simpl; [reflexivity|].
  rewrite insert_by_stable. simpl. now rewrite IH.
Qed.

Lemma sorted_head_le (x : A) (l : list A) (y : A) :
  Sorted (Py.key_le key) (x :: l) -> In y (x :: l) -> key x <= key y.
Proof.
  intros Hs Hin. apply Sorted_StronglySorted in Hs.
  - inversion Hs as [|? ? _ Hall]; subst. destruct Hin as [<-|Hin]; [lia|].
    rewrite Forall_forall in Hall. now apply Hall.
  - intros a b c. unfold Py.key_le. lia.
Qed.

Lemma stable_sort_unique (l1 l2 : list A) :
  Sorted (Py.key_le key) l1 ->
  Sorted (Py.key_le key) l2 ->
  (forall k, filter (fun a => key a =? k) l1 = filter (fun a => key a =? k) l2) ->
  l1 = l2.
Proof.
  revert l2. induction l1 as [|x l1 IH]; intros [|y l2] H1 H2 Hf.
  - reflexivity.
  - specialize (Hf (key y)). simpl in Hf. rewrite Z.eqb_refl in Hf. discriminate.
  - specialize (Hf (key x)). simpl in Hf. rewrite Z.eqb_refl in Hf. discriminate.
  - assert (Hxy : key x = key y).
    { assert (Hx : In x (y :: l2)).
      { eapply proj1. apply (filter_In (fun a => key a =? key x)).
        rewrite <- Hf. simpl. rewrite Z.eqb_refl. now left. }
      assert (Hy : In y (x :: l1)).
      { eapply proj1. apply (filter_In (fun a => key a =? key y)).
        rewrite Hf. simpl. rewrite Z.eqb_refl. now left. }
      apply (sorted_head_le _ _ _ H2) in Hx.
      apply (sorted_head_le _ _ _ H1) in Hy. lia. }
    assert (Hhd := Hf (key x)). simpl in Hhd.
    rewrite <- Hxy, Z.eqb_refl in Hhd. injection Hhd as <- _.
    f_equal. apply IH.
    + now inversion H1.
    + now inversion H2.
    + intros k. specialize (Hf k). simpl in Hf.
      destruct (key x =? k); [now injection Hf|exact Hf].
Qed.

(** Whatever stable sort [list.sort] runs, its result is [Py.sort]'s. *)
Lemma sort_characterised (l l' : list A) :
  Sorted (Py.key_le key) l' ->
  (forall k, filter (fun a => key a =? k) l' = filter (fun a => key a =? k) l) ->
  l' = Py.sort key l.
Proof.
  intros Hs Hf. apply stable_sort_unique; [exact Hs|apply sort_sorted|].
  intros k. now rewrite Hf, sort_stable.
Qed.

Lemma sort_nil_inv (l : list A) : Py.sort key l = [] -> l = [].
Proof.
  intros H. apply Permutation_nil. rewrite <- H.
  apply Permutation_sym, sort_perm.
Qed.

(** The head of the sorted list is the first element of lowest key. *)
Lemma sort_head (l : list A) (c : A) (r : list A) :
  Py.sort key l = c :: r ->
  exists l1 l2,
    l = l1 ++ c :: l2 /\
    (forall x, In x l1 -> key c < key x) /\
    (forall x, In x l2 -> key c <= key x).
Proof.
  revert c r. induction l as [|x l IH]; simpl; intros c r H; [discriminate|].
  destruct (Py.sort key l) as [|y s] eqn:Es; simpl in H.
  - injection H as <- <-. apply sort_nil_inv in Es. subst l.
    exists [], []. repeat split; intros ? [].
  - destruct (IH y s eq_refl) as (l1 & l2 & -> & Hlt & Hle).
    destruct (key x <=? key y) eqn:E; injection H as <- <-.
    + exists [], (l1 ++ y :: l2). repeat split; [intros ? []|].
      intros z Hz. apply in_app_or in Hz. destruct Hz as [Hz|[<-|Hz]].
      * specialize (Hlt z Hz). lia.
      * lia.
      * specialize (Hle z Hz). lia.
    + exists (x :: l1), l2. repeat split; [|exact Hle].
      intros z [<-|Hz]; [lia|now apply Hlt].
Qed.

Lemma sort_map (B : Type) (key' : B -> Z) (f : A -> B) (l : list A) :
  (forall a, key' (f a) = key a) ->
  Py.sort key' (map f l) = map f (Py.sort key l).
Proof.
  intros Hk. induction l as [|x l IH]; simpl; [reflexivity|].
  rewrite IH. generalize (Py.sort key l). intros s.
  induction s as [|y s IHs]; simpl; [reflexivity|].
  rewrite !Hk. destruct (key x <=? key y); simpl; [reflexivity|].
  now rewrite IHs.
Qed.

End SortFacts.

(** ** Facts about the selectors *)

Lemma filter_split (p : node -> bool) (ns f1 f2 : list node) (c : node) :
  filter p ns = f1 ++ c :: f2 ->
  exists l1 l2,
    ns = l1 ++ c :: l2 /\ filter p l1 = f1 /\ filter p l2 = f2 /\ p c = true.
Proof.
  revert f1. induction ns as [|n ns IH]; simpl; intros f1 H.
  - destruct f1; discriminate.
  - destruct (p n) eqn:Ep.
    + destruct f1 as [|a f1]; simpl in H; injection H as -> H.
      * exists [], ns. now rewrite H.
      * destruct (IH f1 H) as (l1 & l2 & -> & <- & <- & Hc).
        exists (a :: l1), l2. simpl. now rewrite Ep.
    + destruct (IH f1 H) as (l1 & l2 & -> & <- & <- & Hc).
      exists (n :: l1), l2. simpl. now rewrite Ep.
Qed.

Lemma get_current_leader_lowest (ns : list node) :
  get_current_leader ns = lowest is_leader ns.
Proof. reflexivity. Qed.

Lemma get_best_candidate_lowest (ns : list node) :
  get_best_candidate ns = lowest is_healthy ns.
Proof. reflexivity. Qed.

Lemma filter_nil_iff (p : node -> bool) (ns : list node) :
  filter p ns = [] <-> forall n, In n ns -> p n = false.
Proof.
  induction ns as [|n ns IH]; simpl.
  - split; [intros _ ? []|reflexivity].
  - destruct (p n) eqn:Ep; split.
    + discriminate.
    + intros H. specialize (H n (or_introl eq_refl)). congruence.
    + intros H x [<-|Hx]; [exact Ep|now apply IH].
    + intros H. apply IH. intros x Hx. apply H. now right.
Qed.

Lemma lowest_none (p : node -> bool) (ns : list node) :
  lowest p ns = None <-> forall n, In n ns -> p n = false.
Proof.
  rewrite <- filter_nil_iff. unfold lowest.
  destruct (filter p ns) as [|a f] eqn:Ef; [tauto|].
  split; [|discriminate].
  destruct (Py.sort order_key (a :: f)) as [|b s] eqn:Es; [|discriminate].
  apply sort_nil_inv in Es. discriminate.
Qed.

Lemma get_best_candidate_lowest_none (ns : list node) :
  get_best_candidate ns = None -> forall n, In n ns -> is_healthy n = false.
Proof. apply lowest_none. Qed.

Lemma lowest_some (p : node -> bool) (ns : list node) (c : node) :
  lowest p ns = Some c -> first_lowest p ns c.
Proof.
  unfold lowest. intros H.
  assert (Hs : exists r, Py.sort order_key (filter p ns) = c :: r).
  { destruct (filter p ns); [discriminate|].
    destruct (Py.sort order_key (n :: l)); [discriminate|].
    injection H as ->. now eexists. }
  destruct Hs as (r & Hs).
  apply sort_head in Hs. destruct Hs as (f1 & f2 & Hf & Hlt & Hle).
  apply filter_split in Hf. destruct Hf as (l1 & l2 & -> & <- & <- & Hc).
  exists l1, l2. repeat split; [exact Hc| |].
  - intros x Hx Hp. apply Hlt, filter_In. now split.
  - intros x Hx Hp. apply Hle, filter_In. now split.
Qed.

Lemma first_lowest_in {p : node -> bool} {ns : list node} {c : node} :
  first_lowest p ns c -> In c ns /\ p c = true.
Proof.
  intros (l1 & l2 & -> & Hc & _). split; [|exact Hc].
  apply in_or_app. right. now left.
Qed.

Lemma first_lowest_le {p : node -> bool} {ns : list node} {c : node} (n : node) :
  first_lowest p ns c -> In n ns -> p n = true -> order_key c <= order_key n.
Proof.
  intros (l1 & l2 & -> & Hc & Hlt & Hle) Hn Hp.
  apply in_app_or in Hn. destruct Hn as [Hn|[<-|Hn]].
  - specialize (Hlt n Hn Hp). lia.
  - lia.
  - now apply Hle.
Qed.

Lemma get_best_candidate_in (ns : list node) (c : node) :
  get_best_candidate ns = Some c -> In c ns /\ is_healthy c = true.
Proof.
  rewrite get_best_candidate_lowest. intros H.
  now apply lowest_some, first_lowest_in in H.
Qed.

Lemma lowest_map (p : node -> bool) (f : node -> node) (ns : list node) :
  (forall a, p (f a) = p a) ->
  (forall a, order_key (f a) = order_key a) ->
  lowest p (map f ns) = option_map f (lowest p ns).
Proof.
  intros Hp Hk. unfold lowest.
  assert (Hf : filter p (map f ns) = map f (filter p ns)).
  { induction ns as [|n ns IH]; simpl; [reflexivity|].
    rewrite Hp. destruct (p n); simpl; now rewrite IH. }
  rewrite Hf.
  destruct (filter p ns) as [|a l]; [reflexivity|].
  change (map f (a :: l)) with (f a :: map f l) at 1.
  cbv iota. rewrite (sort_map order_key node order_key f (a :: l) Hk).
  now destruct (Py.sort order_key (a :: l)).
Qed.

Lemma eqb_ostr_eq (a b : option string) : Py.eqb_ostr a b = true <-> a = b.
Proof.
  destruct a as [x|], b as [y|]; simpl; try (split; congruence).
  rewrite String.eqb_eq. split; congruence.
Qed.

Lemma eqb_ostr_refl (a : option string) : Py.eqb_ostr a a = true.
Proof. now apply eqb_ostr_eq. Qed.

(** ** Candidate Selector and Leader Locator *)



(** C4. [get_current_leader] returns [None] exactly when no node has the
    role [leader]; otherwise it returns, without raising, the node of
    lowest failover order among those declared leader, the first such node
    in list order when several share that order. *)
Theorem get_current_leader_spec (ns : list node) :
  (get_current_leader ns = None <-> forall n, In n ns -> role n <> Some "leader") /\
  (forall c, get_current_leader ns = Some c ->
     In c ns /\ role c = Some "leader" /\
     (forall n, In n ns -> role n = Some "leader" -> order_key c <= order_key n) /\
     first_lowest is_leader ns c).
Proof.
  assert (Hl : forall n, is_leader n = true <-> role n = Some "leader")
    by (intros n; apply eqb_ostr_eq).
  rewrite get_current_leader_lowest. split.
  - rewrite lowest_none. split; intros H n Hn.
    + rewrite <- Hl, (H n Hn). discriminate.
    + specialize (H n Hn). rewrite <- Hl in H. now destruct (is_leader n).
  - intros c Hc. apply lowest_some in Hc.
    destruct (first_lowest_in Hc) as [Hin Hh].
    repeat split; try assumption; [now apply Hl|].
    intros n Hn Hp. apply (first_lowest_le n Hc); [exact Hn|now apply Hl].
Qed.

Lemma get_current_leader_spec_witness :
  get_current_leader Sample.two_leaders = Some Sample.node1 /\
  first_lowest is_leader Sample.two_leaders Sample.node1.
Proof.
  split; [reflexivity|].
  apply (proj2 (get_current_leader_spec Sample.two_leaders)). reflexivity.
Defined.

(** C10 as stated fails at the boundary: a healthy, leader-declared node
    without [failover_order] that precedes a node whose explicit order is
    exactly 9999 is selected by both selectors, although 9999 does not
    exceed 9999. *)
Lemma missing_order_tie_selected :
  failover_order Sample.unranked = None /\
  In Sample.ranked_9999 Sample.tie_at_9999 /\
  is_healthy Sample.ranked_9999 = true /\
  is_leader Sample.ranked_9999 = true /\
  failover_order Sample.ranked_9999 = Some 9999 /\
  get_best_candidate Sample.tie_at_9999 = Some Sample.unranked /\
  get_current_leader Sample.tie_at_9999 = Some Sample.unranked /\
  ~ (9999 > 9999).
Proof.
  repeat split; simpl; auto. lia.
Qed.

Lemma lowest_missing (p : node -> bool) (ns : list node) (c : node) :
  failover_order c = None -> lowest p ns = Some c -> selected_missing p ns c.
Proof.
  intros Hnone Hsel. apply lowest_some in Hsel.
  destruct Hsel as (l1 & l2 & -> & Hc & Hlt & Hle).
  assert (Hk : order_key c = 9999) by (unfold order_key; now rewrite Hnone).
  rewrite Hk in Hlt, Hle.
  exists l1, l2. repeat split; try assumption.
  - intros n v Hn Hp Hv. specialize (Hlt n Hn Hp).
    unfold order_key in Hlt. now rewrite Hv in Hlt.
  - intros n v Hn Hp Hv. specialize (Hle n Hn Hp).
    unfold order_key in Hle. now rewrite Hv in Hle.
  - intros n Hn Hp Hv. specialize (Hlt n Hn Hp).
    unfold order_key in Hlt. rewrite Hv in Hlt. simpl in Hlt. lia.
Qed.

(** C10, amended. A node without [failover_order] is ranked by both
    selectors with the key 9999: when one selects such a node, every
    other eligible node with an explicit order has an order of at least
    9999, of more than 9999 if it comes earlier in the list, and no
    eligible node without an order comes earlier in the list. *)
Theorem missing_order_ranked_9999 (ns : list node) (c : node) :
  failover_order c = None ->
  order_key c = 9999 /\
  (get_current_leader ns = Some c -> selected_missing is_leader ns c) /\
  (get_best_candidate ns = Some c -> selected_missing is_healthy ns c).
Proof.
  intros Hnone. split; [unfold order_key; now rewrite Hnone|].
  split; intros H; now apply lowest_missing.
Qed.

Lemma missing_order_ranked_9999_witness :
  failover_order Sample.unranked = None /\
  get_best_candidate Sample.tie_at_9999 = Some Sample.unranked /\
  selected_missing is_healthy Sample.tie_at_9999 Sample.unranked /\
  selected_missing is_leader Sample.tie_at_9999 Sample.unranked.
Proof.
  split; [reflexivity|]. split; [reflexivity|].
  destruct (missing_order_ranked_9999 Sample.tie_at_9999 Sample.unranked eq_refl)
    as (_ & Hl & Hb).
  split; [apply Hb|apply Hl]; reflexivity.
Defined.

(** ** Role Updater *)

Lemma update_roles_no_match (ns : list node) (nm : option string) :
  ~ In nm (map name ns) -> filter is_leader (update_roles ns nm) = [].
Proof.
  induction ns as [|n ns IH]; simpl; intros H; [reflexivity|].
  destruct (Py.eqb_ostr (name n) nm) eqn:E.
  - apply eqb_ostr_eq in E. tauto.
  - simpl. apply IH. tauto.
Qed.

Lemma update_roles_order (ns : list node) (nm : option string) :
  map failover_order ns = map failover_order (update_roles ns nm).
Proof.
  unfold update_roles. rewrite map_map. apply map_ext.
  intros m. now destruct (Py.eqb_ostr (name m) nm).
Qed.

(** C5. When node names are unique, after [update_roles] at most one node
    has the role [leader]; a node has it exactly when its name is the new
    leader's name, and every other node has the role [replica]. Nothing
    but the role changes. *)
Theorem update_roles_single_leader (ns : list node) (nm : option string) :
  NoDup (map name ns) ->
  (List.length (filter is_leader (update_roles ns nm)) <= 1)%nat /\
  (forall n, In n (update_roles ns nm) ->
     (role n = Some "leader" <-> name n = nm) /\
     (name n <> nm -> role n = Some "replica")) /\
  map name (update_roles ns nm) = map name ns /\
  map failover_order (update_roles ns nm) = map failover_order ns /\
  map healthy (update_roles ns nm) = map healthy ns.
Proof.
  intros Hnd. split; [|split; [|repeat split]].
  - induction ns as [|n ns IH]; simpl; [lia|].
    inversion Hnd as [|? ? Hnotin Hnd']; subst.
    destruct (Py.eqb_ostr (name n) nm) eqn:E; simpl.
    + apply eqb_ostr_eq in E. subst nm.
      rewrite (update_roles_no_match ns (name n) Hnotin). simpl. lia.
    + now apply IH.
  - intros n Hn. unfold update_roles in Hn. apply in_map_iff in Hn.
    destruct Hn as (m & <- & _).
    destruct (Py.eqb_ostr (name m) nm) eqn:E; simpl.
    + apply eqb_ostr_eq in E. split; [tauto|congruence].
    + assert (name m <> nm) by (rewrite <- eqb_ostr_eq; congruence).
      split; [|reflexivity]. split; [discriminate|tauto].
  - unfold update_roles. rewrite map_map. apply map_ext.
    intros m. now destruct (Py.eqb_ostr (name m) nm).
  - unfold update_roles. rewrite map_map. apply map_ext.
    intros m. now destruct (Py.eqb_ostr (name m) nm).
  - unfold update_roles. rewrite map_map. apply map_ext.
    intros m. now destruct (Py.eqb_ostr (name m) nm).
Qed.

Lemma update_roles_single_leader_witness :
  NoDup (map name Sample.default_nodes) /\
  (List.length (filter is_leader (update_roles Sample.default_nodes (Some "node2"))) <= 1)%nat.
Proof.
  assert (H : NoDup (map name Sample.default_nodes)).
  { simpl. repeat constructor; simpl; intuition discriminate. }
  split; [exact H|].
  apply (update_roles_single_leader Sample.default_nodes (Some "node2") H).
Defined.

(** ** One pass of the control loop *)

(** What a pass does once the policy has decided. *)
Lemma cycle_promote (cfg : config) (w : world) (st : state)
  (reason : string) (c : node) :
  promotion_policy cfg (time_time w) (last_promotion_time st)
    (get_current_leader (probed w st)) (get_best_candidate (probed w st))
  = inr (true, reason) ->
  get_best_candidate (probed w st) = Some c ->
  cycle cfg w st =
    if promote_node w
    then inr (mkState (update_roles (probed w st) (name c)) (time_time w),
              EvPromote reason c
                :: dispatch_from w (set_role "leader" c) 0
                     (update_roles (probed w st) (name c)))
    else inr (mkState (probed w st) (last_promotion_time st),
              [EvPromote reason c]).
Proof.
  intros Hp Hb. unfold cycle. fold (probed w st). now rewrite Hp, Hb.
Qed.

Lemma cycle_quiet (cfg : config) (w : world) (st : state) (reason : string) :
  promotion_policy cfg (time_time w) (last_promotion_time st)
    (get_current_leader (probed w st)) (get_best_candidate (probed w st))
  = inr (false, reason) ->
  no_action cfg w st.
Proof.
  intros Hp. unfold no_action, cycle. fold (probed w st). now rewrite Hp.
Qed.

Lemma cycle_raise (cfg : config) (w : world) (st : state) (e : exn) :
  promotion_policy cfg (time_time w) (last_promotion_time st)
    (get_current_leader (probed w st)) (get_best_candidate (probed w st))
  = inl e ->
  cycle cfg w st = inl e.
Proof.
  intros Hp. unfold cycle. fold (probed w st). now rewrite Hp.
Qed.

Lemma promotes_inv (cfg : config) (w : world) (st : state)
  (reason : string) (c : node) :
  promotes (cycle cfg w st) reason c ->
  promotion_policy cfg (time_time w) (last_promotion_time st)
    (get_current_leader (probed w st)) (get_best_candidate (probed w st))
  = inr (true, reason) /\
  get_best_candidate (probed w st) = Some c.
Proof.
  intros (st' & tr & H). unfold cycle in H. fold (probed w st) in H.
  destruct (promotion_policy _ _ _ _ _) as [e|[[] r]]; [discriminate| |].
  - destruct (get_best_candidate (probed w st)) as [b|]; [|discriminate].
    destruct (promote_node w); injection H as _ -> ->; now split.
  - discriminate.
Qed.

Lemma no_action_no_promotion (cfg : config) (w : world) (st : state) :
  no_action cfg w st -> no_promotion (cycle cfg w st).
Proof.
  intros H (reason & c & st' & tr & H'). rewrite H in H'. discriminate.
Qed.

Lemma raise_no_promotion (cfg : config) (w : world) (st : state) (e : exn) :
  cycle cfg w st = inl e -> no_promotion (cycle cfg w st).
Proof.
  intros H (reason & c & st' & tr & H'). rewrite H in H'. discriminate.
Qed.

Lemma cycle_inr_cases (cfg : config) (w : world) (st st1 : state)
  (tr1 : list event) :
  cycle cfg w st = inr (st1, tr1) ->
  (no_action cfg w st /\
   st1 = mkState (probed w st) (last_promotion_time st) /\ tr1 = []) \/
  (exists reason c,
     promotes (cycle cfg w st) reason c /\
     get_best_candidate (probed w st) = Some c /\
     st1 = if promote_node w
           then mkState (update_roles (probed w st) (name c)) (time_time w)
           else mkState (probed w st) (last_promotion_time st)).
Proof.
  intros H.
  destruct (promotion_policy cfg (time_time w) (last_promotion_time st)
              (get_current_leader (probed w st))
              (get_best_candidate (probed w st))) as [e|[[] reason]] eqn:Hp.
  - rewrite (cycle_raise cfg w st e Hp) in H. discriminate.
  - destruct (get_best_candidate (probed w st)) as [c|] eqn:Hb.
    + right. exists reason, c. rewrite <- Hb in Hp.
      assert (Hc := cycle_promote cfg w st reason c Hp Hb).
      rewrite Hc in H. split; [|split; [reflexivity|]].
      * rewrite Hc. destruct (promote_node w); eexists; eexists; reflexivity.
      * destruct (promote_node w); now injection H as <- _.
    + left. assert (Hq : no_action cfg w st).
      { unfold no_action, cycle. fold (probed w st). now rewrite Hb, Hp. }
      split; [exact Hq|]. rewrite Hq in H. now injection H as <- <-.
  - left. assert (Hq := cycle_quiet cfg w st reason Hp).
    split; [exact Hq|]. rewrite Hq in H. now injection H as <- <-.
Qed.



(** A healthy leader is itself a candidate. *)
Lemma healthy_leader_candidate (ns : list node) (l : node) :
  get_current_leader ns = Some l -> is_healthy l = true ->
  exists b, get_best_candidate ns = Some b.
Proof.
  intros Hl Hh. destruct (get_best_candidate ns) as [b|] eqn:Hb; [now exists b|].
  apply lowest_some, first_lowest_in in Hl. destruct Hl as [Hin _].
  rewrite (get_best_candidate_lowest_none ns Hb l Hin) in Hh. discriminate.
Qed.

Lemma policy_leader_down (cfg : config) (t last : float)
  (leader : option node) (c : node) :
  leader = None \/ (exists l, leader = Some l /\ is_healthy l = false) ->
  promotion_policy cfg t last leader (Some c) = inr (true, reason_leader_down).
Proof.
  intros [->|(l & -> & Hl)]; unfold promotion_policy; [reflexivity|].
  now rewrite Hl.
Qed.

Lemma policy_leader_up (cfg : config) (t last : float) (l b : node) :
  is_healthy l = true ->
  promotion_policy cfg t last (Some l) (Some b) =
    if failback_enabled cfg then
      match order_lt (failover_order b) (failover_order l) with
      | inl e => inl e
      | inr true =>
          if cooldown_over cfg t last
          then inr (true, reason_failback)
          else inr (false, "")
      | inr false => inr (false, "")
      end
    else inr (false, "").
Proof.
  intros Hl. unfold promotion_policy. now rewrite Hl.
Qed.

(** ** Promotion Policy *)

(** C2. When no leader is declared or the declared leader is unhealthy,
    and a healthy candidate exists, the pass calls the promotion command
    on that candidate with the reason "leader unhealthy", whatever the
    clock reads and whatever [last_promotion_time], [promotion_cooldown]
    and [failback_enabled] are. *)
Theorem emergency_promotion (cfg : config) (w : world) (st : state) (c : node) :
  get_current_leader (probed w st) = None \/
  (exists l, get_current_leader (probed w st) = Some l /\ is_healthy l = false) ->
  get_best_candidate (probed w st) = Some c ->
  promotes (cycle cfg w st) reason_leader_down c.
Proof.
  intros Hdown Hb.
  assert (Hp := policy_leader_down cfg (time_time w) (last_promotion_time st)
                  (get_current_leader (probed w st)) c Hdown).
  rewrite <- Hb in Hp.
  rewrite (cycle_promote cfg w st reason_leader_down c Hp Hb).
  destruct (promote_node w); eexists; eexists; reflexivity.
Qed.

(** Scenario A of the specification, one second after a promotion and
    with a cooldown of 30 seconds. *)
Lemma emergency_promotion_witness :
  promotes
    (cycle Sample.default_config (Sample.first_down 101)
       (mkState Sample.default_nodes 100))
    reason_leader_down (set_healthy true Sample.node2).
Proof.
  apply (emergency_promotion Sample.default_config (Sample.first_down 101)
           (mkState Sample.default_nodes 100) (set_healthy true Sample.node2)).
  - right. exists (set_healthy false Sample.node1). split; reflexivity.
  - reflexivity.
Defined.

(** What a promotion request tells in a pass with a healthy leader. *)
Lemma failback_requested_inv (cfg : config) (w : world) (st : state)
  (l b : node) (reason : string) (c : node) :
  get_current_leader (probed w st) = Some l ->
  is_healthy l = true ->
  get_best_candidate (probed w st) = Some b ->
  promotes (cycle cfg w st) reason c ->
  reason = reason_failback /\ c = b /\
  failback_enabled cfg = true /\ lower_order b l /\
  cooldown_over cfg (time_time w) (last_promotion_time st) = true.
Proof.
  intros Hl Hh Hb Hpr. apply promotes_inv in Hpr. destruct Hpr as [Hp Hc].
  rewrite Hl, Hb, (policy_leader_up cfg _ _ l b Hh) in Hp.
  rewrite Hb in Hc. injection Hc as <-. unfold lower_order.
  destruct (failback_enabled cfg); [|discriminate].
  destruct (order_lt (failover_order b) (failover_order l)) as [e|[]];
    try discriminate.
  destruct (cooldown_over cfg _ _); [|discriminate].
  injection Hp as <-. repeat split.
Qed.

(** The policy of a pass with a healthy leader and an eligible failback. *)
Lemma failback_eligible (cfg : config) (w : world) (st : state) (l b : node) :
  get_current_leader (probed w st) = Some l ->
  is_healthy l = true ->
  get_best_candidate (probed w st) = Some b ->
  failback_enabled cfg = true ->
  lower_order b l ->
  promotion_policy cfg (time_time w) (last_promotion_time st)
    (get_current_leader (probed w st)) (get_best_candidate (probed w st))
  = if cooldown_over cfg (time_time w) (last_promotion_time st)
    then inr (true, reason_failback)
    else inr (false, "").
Proof.
  intros Hl Hh Hb Hf Ho. unfold lower_order in Ho.
  now rewrite Hl, Hb, (policy_leader_up cfg _ _ l b Hh), Hf, Ho.
Qed.

Lemma failback_requested (cfg : config) (w : world) (st : state) (l b : node) :
  get_current_leader (probed w st) = Some l ->
  is_healthy l = true ->
  get_best_candidate (probed w st) = Some b ->
  failback_enabled cfg = true ->
  lower_order b l ->
  cooldown_over cfg (time_time w) (last_promotion_time st) = true ->
  promotes (cycle cfg w st) reason_failback b.
Proof.
  intros Hl Hh Hb Hf Ho Hc.
  assert (Hp := failback_eligible cfg w st l b Hl Hh Hb Hf Ho).
  rewrite Hc in Hp.
  rewrite (cycle_promote cfg w st reason_failback b Hp Hb).
  destruct (promote_node w); eexists; eexists; reflexivity.
Qed.




(** The cooldown test is the binary64 one. With a clock at 1 and a
    cooldown of 2^54 seconds, a pass at time 2^54 computes the difference
    2^54 - 1 as 2^54, and fails back. *)
Lemma cooldown_test_rounds :
  PrimFloat.sub 0x1p+54 1 = 0x1p+54%float /\
  cooldown_over (mkConfig (Py.PyInt (2 ^ 54)) true) 0x1p+54 1 = true /\
  requests_promotion
    (cycle (mkConfig (Py.PyInt (2 ^ 54)) true) (Sample.all_up 0x1p+54)
       (mkState Sample.failback_nodes 1)).
Proof.
  split; [reflexivity|]. split; [reflexivity|].
  eexists; eexists; eexists; eexists; reflexivity.
Qed.

(** ** The health loop *)

Lemma probe_from_overwrite (w w' : world) (i : nat) (ns : list node) :
  probe_from w' i (probe_from w i ns) = probe_from w' i ns.
Proof.
  revert i. induction ns as [|n ns IH]; simpl; intros i; [reflexivity|].
  now rewrite IH.
Qed.

Lemma probe_from_ext (w w' : world) (i : nat) (ns : list node) :
  (forall j, check_node_health w' j = check_node_health w j) ->
  probe_from w' i ns = probe_from w i ns.
Proof.
  intros H. revert i. induction ns as [|n ns IH]; simpl; intros i; [reflexivity|].
  now rewrite IH, H.
Qed.

Lemma probe_from_update_roles (w : world) (i : nat) (ns : list node)
  (nm : option string) :
  probe_from w i (update_roles ns nm) = update_roles (probe_from w i ns) nm.
Proof.
  revert i. induction ns as [|n ns IH]; simpl; intros i; [reflexivity|].
  rewrite IH. now destruct (Py.eqb_ostr (name n) nm).
Qed.

Lemma probe_from_role (w : world) (i : nat) (ns : list node) :
  map role (probe_from w i ns) = map role ns.
Proof.
  revert i. induction ns as [|n ns IH]; simpl; intros i; [reflexivity|].
  now rewrite IH.
Qed.

Lemma probe_from_order (w : world) (i : nat) (ns : list node) :
  map failover_order (probe_from w i ns) = map failover_order ns.
Proof.
  revert i. induction ns as [|n ns IH]; simpl; intros i; [reflexivity|].
  now rewrite IH.
Qed.

(** A pass reads nothing of the health flags the previous one wrote. *)
Lemma cycle_after_probe (cfg : config) (w w' : world) (st : state) :
  cycle cfg w' (mkState (probed w st) (last_promotion_time st)) = cycle cfg w' st.
Proof.
  unfold cycle, probed. simpl. now rewrite probe_from_overwrite.
Qed.

(** ** Promotion outcome *)

(** C6. When the promotion command fails, the pass ends with the trace
    holding that one call and no reconfiguration; every role and
    [last_promotion_time] are as before the pass, and the next pass
    behaves as if the failed one had not run. *)
Theorem promotion_failure_atomic (cfg : config) (w : world) (st : state)
  (reason : string) (c : node) :
  promotes (cycle cfg w st) reason c ->
  promote_node w = false ->
  exists st',
    cycle cfg w st = inr (st', [EvPromote reason c]) /\
    map role (nodes st') = map role (nodes st) /\
    last_promotion_time st' = last_promotion_time st /\
    targets [EvPromote reason c] = [] /\
    (forall w', cycle cfg w' st' = cycle cfg w' st).
Proof.
  intros Hpr Hfail. apply promotes_inv in Hpr. destruct Hpr as [Hp Hb].
  exists (mkState (probed w st) (last_promotion_time st)).
  rewrite (cycle_promote cfg w st reason c Hp Hb), Hfail. simpl.
  repeat split.
  - apply probe_from_role.
  - intros w'. apply cycle_after_probe.
Qed.

Lemma promotion_failure_atomic_witness :
  promotes
    (cycle Sample.default_config (Sample.all_up_promotion_fails 100)
       (initial_state Sample.failback_nodes))
    reason_failback (set_healthy true Sample.node0) /\
  promote_node (Sample.all_up_promotion_fails 100) = false /\
  exists st',
    cycle Sample.default_config (Sample.all_up_promotion_fails 100)
      (initial_state Sample.failback_nodes)
    = inr (st', [EvPromote reason_failback (set_healthy true Sample.node0)]) /\
    map role (nodes st') = map role Sample.failback_nodes /\
    last_promotion_time st' = 0%float.
Proof.
  assert (H : promotes
    (cycle Sample.default_config (Sample.all_up_promotion_fails 100)
       (initial_state Sample.failback_nodes))
    reason_failback (set_healthy true Sample.node0)).
  { eexists; eexists; reflexivity. }
  split; [exact H|]. split; [reflexivity|].
  destruct (promotion_failure_atomic _ _ _ _ _ H eq_refl)
    as (st' & Hc & Hr & Hl & _).
  exists st'. repeat split; assumption.
Defined.



(** ** Replication Dispatcher *)


Lemma dispatch_events (w : world) (ldr : node) (i : nat) (ns : list node)
  (e : event) :
  In e (dispatch_from w ldr i ns) -> exists t ok, e = EvReconfigure ldr t ok.
Proof.
  revert i. induction ns as [|n ns IH]; simpl; intros i; [intros []|].
  destruct (negb (Py.eqb_ostr (name n) (name ldr)) && is_healthy n).
  - intros [<-|H]; [now eexists; eexists|now apply (IH (S i))].
  - apply IH.
Qed.





(** ** Two passes in succession *)

Lemma lower_order_key (a b : node) :
  lower_order a b -> order_key a < order_key b.
Proof.
  unfold lower_order, order_lt, order_key.
  destruct (failover_order a) as [x|], (failover_order b) as [y|];
    try discriminate.
  simpl. intros H. injection H as H. lia.
Qed.

(** C9 as stated fails: with failback enabled, the cooldown over and a
    healthy node ranked ahead of the healthy leader, a pass whose promotion
    command fails leaves the leader in place, and a second pass in the
    very same world requests the promotion again. It also fails when the
    first pass is blocked by the cooldown and the cooldown runs out before
    the second. Health results and priorities are the same in both
    passes. *)
Lemma second_pass_promotes :
  (exists st1 l r c,
     cycle Sample.default_config (Sample.all_up_promotion_fails 100)
       (initial_state Sample.failback_nodes) = inr (st1, [EvPromote r c]) /\
     get_current_leader (nodes st1) = Some l /\
     is_healthy l = true /\
     map failover_order (nodes st1) = map failover_order Sample.failback_nodes /\
     probed (Sample.all_up_promotion_fails 100) st1 = nodes st1 /\
     promotes (cycle Sample.default_config (Sample.all_up_promotion_fails 100) st1)
       r c /\
     run Sample.default_config
       [Sample.all_up_promotion_fails 100; Sample.all_up_promotion_fails 100]
       (initial_state Sample.failback_nodes)
     = inr (st1, [EvPromote r c; EvPromote r c])) /\
  (exists st1 l,
     cycle Sample.default_config (Sample.all_up 100)
       (mkState Sample.failback_nodes 95) = inr (st1, []) /\
     get_current_leader (nodes st1) = Some l /\
     is_healthy l = true /\
     map failover_order (nodes st1) = map failover_order Sample.failback_nodes /\
     probed (Sample.all_up 130) st1 = nodes st1 /\
     requests_promotion (cycle Sample.default_config (Sample.all_up 130) st1)).
Proof.
  split.
  - eexists; eexists; eexists; eexists.
    split; [reflexivity|]. split; [reflexivity|]. split; [reflexivity|].
    split; [reflexivity|]. split; [reflexivity|].
    split; [eexists; eexists; reflexivity|reflexivity].
  - eexists; eexists.
    split; [reflexivity|]. split; [reflexivity|]. split; [reflexivity|].
    split; [reflexivity|]. split; [reflexivity|].
    eexists; eexists; eexists; eexists; reflexivity.
Qed.

(** C9, amended. When two passes in succession see the same health
    results and the first one ends with a healthy leader, the second one
    requests no promotion, provided that a promotion requested by the
    first pass succeeded and that, when the first pass requested none, the
    cooldown has not run out in between: the test [current_time -
    last_promotion_time >= promotion_cooldown] holds in the second pass
    only if it held in the first. Failover orders are never changed by a
    pass. *)
Theorem second_pass_idempotent (cfg : config) (w1 w2 : world)
  (st0 st1 : state) (tr1 : list event) (l : node) :
  (forall i, check_node_health w2 i = check_node_health w1 i) ->
  cycle cfg w1 st0 = inr (st1, tr1) ->
  get_current_leader (nodes st1) = Some l ->
  is_healthy l = true ->
  (requests_promotion (cycle cfg w1 st0) -> promote_node w1 = true) ->
  (no_promotion (cycle cfg w1 st0) ->
   cooldown_over cfg (time_time w2) (last_promotion_time st0) = true ->
   cooldown_over cfg (time_time w1) (last_promotion_time st0) = true) ->
  no_promotion (cycle cfg w2 st1) /\
  probed w2 st1 = nodes st1 /\
  map failover_order (nodes st1) = map failover_order (nodes st0).
Proof.
  intros Hsame Hc Hl Hh Hok Hcool.
  assert (Hre : probe_from w2 0 (probed w1 st0) = probed w1 st0).
  { unfold probed. rewrite probe_from_overwrite. now apply probe_from_ext. }
  apply cycle_inr_cases in Hc.
  destruct Hc as [(Hq & -> & ->)|(reason & c & Hpr & Hb & Hst)].
  - simpl in *. unfold probed at 2. simpl. split; [|split].
    + intros Hreq.
      assert (Hn1 := no_action_no_promotion cfg w1 st0 Hq).
      assert (Hp2 : probed w2 (mkState (probed w1 st0) (last_promotion_time st0))
                    = probed w1 st0) by exact Hre.
      destruct (healthy_leader_candidate _ _ Hl Hh) as (b & Hb).
      destruct Hreq as (reason & c & Hpr).
      destruct (failback_requested_inv cfg w2
                  (mkState (probed w1 st0) (last_promotion_time st0))
                  l b reason c) as (_ & _ & Hf & Ho & Hcd);
        [now rewrite Hp2|exact Hh|now rewrite Hp2|exact Hpr|].
      apply Hn1. exists reason_failback, b.
      apply (failback_requested cfg w1 st0 l b Hl Hh Hb Hf Ho).
      exact (Hcool Hn1 Hcd).
    + exact Hre.
    + apply probe_from_order.
  - rewrite (Hok (ex_intro _ reason (ex_intro _ c Hpr))) in Hst. subst st1.
    simpl in *.
    set (upd := fun node : node =>
                  if Py.eqb_ostr (name node) (name c)
                  then set_role "leader" node else set_role "replica" node).
    assert (Hp2 : probed w2 (mkState (update_roles (probed w1 st0) (name c))
                               (time_time w1))
                  = update_roles (probed w1 st0) (name c)).
    { unfold probed at 1. simpl. now rewrite probe_from_update_roles, Hre. }
    split; [|split].
    + intros Hreq.
      assert (Hb2' : get_best_candidate (update_roles (probed w1 st0) (name c))
                     = Some (upd c)).
      { rewrite get_best_candidate_lowest. unfold update_roles.
        rewrite (lowest_map is_healthy upd).
        - rewrite <- get_best_candidate_lowest, Hb. reflexivity.
        - intros a. unfold upd. now destruct (Py.eqb_ostr (name a) (name c)).
        - intros a. unfold upd. now destruct (Py.eqb_ostr (name a) (name c)). }
      destruct Hreq as (reason' & c' & Hpr').
      destruct (failback_requested_inv cfg w2
                  (mkState (update_roles (probed w1 st0) (name c)) (time_time w1))
                  l (upd c) reason' c') as (_ & _ & _ & Ho & _);
        [now rewrite Hp2|exact Hh|now rewrite Hp2|exact Hpr'|].
      apply lower_order_key in Ho.
      assert (Hlead : is_leader (upd c) = true)
        by (unfold upd; now rewrite eqb_ostr_refl).
      assert (Hin : In (upd c) (update_roles (probed w1 st0) (name c)))
        by now apply get_best_candidate_in in Hb2'.
      apply lowest_some in Hl.
      assert (Hle := first_lowest_le (upd c) Hl Hin Hlead). lia.
    + exact Hp2.
    + destruct (update_roles_order (probed w1 st0) (name c)).
      apply probe_from_order.
Qed.

(** Scenario A, then a second pass five seconds later with the same
    health results: the promoted [node2] stays leader. *)
Lemma second_pass_idempotent_witness :
  cycle Sample.default_config (Sample.first_down 100)
    (initial_state Sample.default_nodes)
  = inr (mkState
           (update_roles
              (probed (Sample.first_down 100) (initial_state Sample.default_nodes))
              (Some "node2"))
           100%float,
         [EvPromote reason_leader_down (set_healthy true Sample.node2);
          EvReconfigure (set_role "leader" (set_healthy true Sample.node2))
            (set_role "replica" (set_healthy true Sample.node3)) true]) /\
  no_promotion
    (cycle Sample.default_config (Sample.first_down 105)
       (mkState
          (update_roles
             (probed (Sample.first_down 100) (initial_state Sample.default_nodes))
             (Some "node2"))
          100%float)).
Proof.
  split; [reflexivity|].
  apply (second_pass_idempotent Sample.default_config
           (Sample.first_down 100) (Sample.first_down 105)
           (initial_state Sample.default_nodes)
           (mkState
              (update_roles
                 (probed (Sample.first_down 100)
                    (initial_state Sample.default_nodes))
                 (Some "node2"))
              100%float)
           [EvPromote reason_leader_down (set_healthy true Sample.node2);
            EvReconfigure (set_role "leader" (set_healthy true Sample.node2))
              (set_role "replica" (set_healthy true Sample.node3)) true]
           (set_role "leader" (set_healthy true Sample.node2))).
  - intros i. reflexivity.
  - reflexivity.
  - reflexivity.
  - reflexivity.
  - intros _. reflexivity.
  - intros Hn. exfalso. apply Hn.
    eexists; eexists; eexists; eexists; reflexivity.
Defined.

(** ** The order comparison of the failback branch *)

(** X1. The failback branch compares the raw [failover_order] values: with
    failback enabled and a healthy leader, a pass in which the best
    candidate or the leader has no [failover_order] ends in a
    [TypeError], before any command is run. *)
Lemma failback_compare_raises (cfg : config) (w : world) (st : state)
  (l b : node) :
  get_current_leader (probed w st) = Some l ->
  is_healthy l = true ->
  get_best_candidate (probed w st) = Some b ->
  failback_enabled cfg = true ->
  failover_order b = None \/ failover_order l = None ->
  cycle cfg w st = inl TypeError.
Proof.
  intros Hl Hh Hb Hf Hnone.
  apply cycle_raise. rewrite Hl, Hb, (policy_leader_up cfg _ _ l b Hh), Hf.
  destruct Hnone as [->| ->]; [reflexivity|].
  now destruct (failover_order b).
Qed.

Lemma failback_compare_raises_witness :
  cycle Sample.default_config (Sample.all_up 100)
    (initial_state Sample.tie_at_9999) = inl TypeError.
Proof.
  apply (failback_compare_raises Sample.default_config (Sample.all_up 100)
           (initial_state Sample.tie_at_9999) Sample.unranked Sample.unranked).
  - reflexivity.
  - reflexivity.
  - reflexivity.
  - reflexivity.
  - left. reflexivity.
Defined.

(** ** More on the health loop *)

Lemma probe_from_name (w : world) (i : nat) (ns : list node) :
  map name (probe_from w i ns) = map name ns.
Proof.
  revert i. induction ns as [|n ns IH]; simpl; intros i; [reflexivity|].
  now rewrite IH.
Qed.

Lemma probe_from_static (w : world) (i : nat) (ns : list node) :
  map static_fields (probe_from w i ns) = map static_fields ns.
Proof.
  revert i. induction ns as [|n ns IH]; simpl; intros i; [reflexivity|].
  now rewrite IH.
Qed.

Lemma probe_from_healthy (w : world) (i : nat) (ns : list node) :
  map healthy (probe_from w i ns)
  = map (fun j => Some (check_node_health w j)) (seq i (List.length ns)).
Proof.
  revert i. induction ns as [|n ns IH]; simpl; intros i; [reflexivity|].
  now rewrite IH.
Qed.

Lemma probe_from_In (w : world) (i : nat) (ns : list node) (n : node) :
  In n (probe_from w i ns) ->
  exists j m,
    (i <= j < i + List.length ns)%nat /\ In m ns /\
    n = set_healthy (check_node_health w j) m.
Proof.
  revert i. induction ns as [|m ns IH]; simpl; intros i; [intros []|].
  intros [<-|H].
  - exists i, m. repeat split; [lia|lia|now left].
  - destruct (IH (S i) H) as (j & m' & Hj & Hm & ->).
    exists j, m'. repeat split; [lia|lia|now right].
Qed.

Lemma probe_from_clear (w : world) (i : nat) (ns : list node) :
  probe_from w i (map clear_healthy ns) = probe_from w i ns.
Proof.
  revert i. induction ns as [|n ns IH]; simpl; intros i; [reflexivity|].
  now rewrite IH.
Qed.

Lemma update_roles_healthy (ns : list node) (nm : option string) :
  map healthy (update_roles ns nm) = map healthy ns.
Proof.
  unfold update_roles. rewrite map_map. apply map_ext.
  intros m. now destruct (Py.eqb_ostr (name m) nm).
Qed.

Lemma update_roles_static (ns : list node) (nm : option string) :
  map static_fields (update_roles ns nm) = map static_fields ns.
Proof.
  unfold update_roles. rewrite map_map. apply map_ext.
  intros m. now destruct (Py.eqb_ostr (name m) nm).
Qed.

(** The state and the trace a pass ends with, by cases. *)
Lemma cycle_inr_full (cfg : config) (w : world) (st st1 : state)
  (tr1 : list event) :
  cycle cfg w st = inr (st1, tr1) ->
  (st1 = mkState (probed w st) (last_promotion_time st) /\ tr1 = []) \/
  (exists reason c,
     get_best_candidate (probed w st) = Some c /\
     ((promote_node w = true /\
       st1 = mkState (update_roles (probed w st) (name c)) (time_time w) /\
       tr1 = EvPromote reason c
               :: dispatch_from w (set_role "leader" c) 0
                    (update_roles (probed w st) (name c))) \/
      (promote_node w = false /\
       st1 = mkState (probed w st) (last_promotion_time st) /\
       tr1 = [EvPromote reason c]))).
Proof.
  intros H. destruct (cycle_inr_cases cfg w st st1 tr1 H)
    as [(_ & -> & ->)|(reason & c & Hpr & Hb & _)]; [now left|].
  right. exists reason, c. split; [exact Hb|].
  apply promotes_inv in Hpr. destruct Hpr as [Hp _].
  rewrite (cycle_promote cfg w st reason c Hp Hb) in H.
  destruct (promote_node w); injection H as <- <-; [left|right]; now repeat split.
Qed.

(** X2, the Health Aggregator. After a pass that does not raise, the
    [healthy] flag of the node at each position is the outcome of this
    pass's probe of that node, whatever it was before and whatever the
    pass went on to do. *)
Theorem health_flags_after_pass (cfg : config) (w : world) (st st' : state)
  (tr : list event) :
  cycle cfg w st = inr (st', tr) ->
  map healthy (nodes st')
  = map (fun i => Some (check_node_health w i))
      (seq 0 (List.length (nodes st))).
Proof.
  intros H. apply cycle_inr_full in H.
  destruct H as [(-> & _)|(reason & c & _ & [(_ & -> & _)|(_ & -> & _)])];
    simpl; try rewrite update_roles_healthy; apply probe_from_healthy.
Qed.

Lemma health_flags_after_pass_witness :
  exists st' tr,
    cycle Sample.default_config (Sample.first_down 100)
      (initial_state Sample.default_nodes) = inr (st', tr) /\
    map healthy (nodes st') = [Some false; Some true; Some true].
Proof.
  eexists; eexists. split; [reflexivity|].
  apply (health_flags_after_pass Sample.default_config (Sample.first_down 100)
           (initial_state Sample.default_nodes) _ _ eq_refl).
Defined.

(** X3, the health flags are transient. Two states whose nodes differ in
    their [healthy] flags only give the same pass: a pass reads no flag
    before it has overwritten it. *)
Theorem stale_health_ignored (cfg : config) (w : world)
  (ns ns' : list node) (last : float) :
  map clear_healthy ns = map clear_healthy ns' ->
  cycle cfg w (mkState ns last) = cycle cfg w (mkState ns' last).
Proof.
  intros H. unfold cycle. simpl.
  now rewrite <- (probe_from_clear w 0 ns), H, probe_from_clear.
Qed.

Lemma stale_health_ignored_witness :
  map clear_healthy Sample.leader_down = map clear_healthy Sample.default_nodes /\
  cycle Sample.default_config (Sample.all_up 100) (mkState Sample.leader_down 0)
  = cycle Sample.default_config (Sample.all_up 100)
      (mkState Sample.default_nodes 0).
Proof.
  split; [reflexivity|].
  apply (stale_health_ignored Sample.default_config (Sample.all_up 100)
           Sample.leader_down Sample.default_nodes 0 eq_refl).
Defined.

(** ** What a pass does and does not do *)

Lemma policy_no_candidate (cfg : config) (t last : float) (leader : option node) :
  (forall l, leader = Some l -> is_healthy l = false) ->
  promotion_policy cfg t last leader None = inr (false, "").
Proof.
  intros H. unfold promotion_policy. destruct leader as [l|]; [|reflexivity].
  now rewrite (H l eq_refl).
Qed.

(** X4. When the probe of every node fails, the pass runs no command and
    leaves roles and clock as they were, whatever the configuration, the
    clock and the declared leader are: there is no candidate. *)
Theorem all_down_no_action (cfg : config) (w : world) (st : state) :
  (forall i, (i < List.length (nodes st))%nat -> check_node_health w i = false) ->
  get_best_candidate (probed w st) = None /\ no_action cfg w st.
Proof.
  intros Hdown.
  assert (Hall : forall n, In n (probed w st) -> is_healthy n = false).
  { intros n Hn. apply probe_from_In in Hn.
    destruct Hn as (j & m & Hj & _ & ->).
    unfold is_healthy. simpl. apply Hdown. lia. }
  assert (Hb : get_best_candidate (probed w st) = None)
    by (rewrite get_best_candidate_lowest; now apply lowest_none).
  split; [exact Hb|].
  apply (cycle_quiet cfg w st ""). rewrite Hb.
  apply policy_no_candidate. intros l Hl. apply Hall.
  rewrite get_current_leader_lowest in Hl.
  now apply lowest_some, first_lowest_in in Hl.
Qed.

(** Scenario D of the specification. *)
Lemma all_down_no_action_witness :
  no_action Sample.default_config (Sample2.all_down 100)
    (initial_state Sample.default_nodes).
Proof.
  apply (all_down_no_action Sample.default_config (Sample2.all_down 100)
           (initial_state Sample.default_nodes)).
  intros i _. reflexivity.
Defined.

(** X5. A pass that does not raise runs at most one promotion command,
    and runs replication commands only after a promotion command that
    succeeded, each of them for the promoted node as leader. *)
Theorem pass_trace_shape (cfg : config) (w : world) (st st' : state)
  (tr : list event) :
  cycle cfg w st = inr (st', tr) ->
  tr = [] \/
  exists reason c tr',
    tr = EvPromote reason c :: tr' /\
    (forall e, In e tr' ->
       exists t ok, e = EvReconfigure (set_role "leader" c) t ok) /\
    (promote_node w = false -> tr' = []).
Proof.
  intros H. apply cycle_inr_full in H.
  destruct H as [(_ & ->)|(reason & c & _ & [(Hok & _ & ->)|(Hko & _ & ->)])].
  - now left.
  - right. eexists; eexists; eexists. split; [reflexivity|]. split.
    + intros e. apply dispatch_events.
    + congruence.
  - right. eexists; eexists; eexists. split; [reflexivity|]. split.
    + intros e [].
    + reflexivity.
Qed.

Lemma pass_trace_shape_witness :
  exists reason c,
    cycle Sample.default_config (Sample.all_up_promotion_fails 100)
      (initial_state Sample.failback_nodes)
    = inr (mkState
             (probed (Sample.all_up_promotion_fails 100)
                (initial_state Sample.failback_nodes)) 0,
           [EvPromote reason c]).
Proof.
  destruct (pass_trace_shape Sample.default_config
              (Sample.all_up_promotion_fails 100)
              (initial_state Sample.failback_nodes) _ _ eq_refl)
    as [H|(reason & c & tr' & H & _ & Hnil)]; [discriminate H|].
  rewrite (Hnil eq_refl) in H. injection H as <- <-.
  eexists; eexists. reflexivity.
Defined.

(** X6. Roles and [last_promotion_time] change only through a promotion
    command that succeeded: a pass that ends with another role list or
    another clock has promoted the best candidate, rewritten the roles for
    its name and set the clock to its own time. *)
Theorem roles_change_only_on_success (cfg : config) (w : world)
  (st st' : state) (tr : list event) :
  cycle cfg w st = inr (st', tr) ->
  map role (nodes st') <> map role (nodes st) \/
  last_promotion_time st' <> last_promotion_time st ->
  promote_node w = true /\
  exists reason c tr',
    get_best_candidate (probed w st) = Some c /\
    tr = EvPromote reason c :: tr' /\
    st' = mkState (update_roles (probed w st) (name c)) (time_time w).
Proof.
  intros H Hchg. apply cycle_inr_full in H.
  destruct H as [(-> & _)|(reason & c & Hb & [(Hok & -> & ->)|(_ & -> & _)])].
  - exfalso. simpl in Hchg. unfold probed in Hchg.
    rewrite probe_from_role in Hchg. tauto.
  - split; [exact Hok|]. exists reason, c. eexists. now repeat split.
  - exfalso. simpl in Hchg. unfold probed in Hchg.
    rewrite probe_from_role in Hchg. tauto.
Qed.

Lemma roles_change_only_on_success_witness :
  promote_node (Sample.first_down 100) = true /\
  exists st' tr,
    cycle Sample.default_config (Sample.first_down 100)
      (initial_state Sample.default_nodes) = inr (st', tr) /\
    last_promotion_time st' = 100%float.
Proof.
  assert (H : cycle Sample.default_config (Sample.first_down 100)
                (initial_state Sample.default_nodes)
              = inr (mkState
                       (update_roles
                          (probed (Sample.first_down 100)
                             (initial_state Sample.default_nodes))
                          (Some "node2")) 100%float,
                     [EvPromote reason_leader_down (set_healthy true Sample.node2);
                      EvReconfigure
                        (set_role "leader" (set_healthy true Sample.node2))
                        (set_role "replica" (set_healthy true Sample.node3))
                        true])) by reflexivity.
  split.
  - apply (roles_change_only_on_success _ _ _ _ _ H). left. discriminate.
  - eexists; eexists. split; [exact H|reflexivity].
Defined.

(** X7. The node a pass promotes is a healthy member of the cluster, the
    first of lowest failover order among the healthy ones, and it is never
    the node the pass regards as the current leader. *)
Theorem promoted_not_leader (cfg : config) (w : world) (st : state)
  (reason : string) (c : node) :
  promotes (cycle cfg w st) reason c ->
  In c (probed w st) /\
  is_healthy c = true /\
  first_lowest is_healthy (probed w st) c /\
  get_current_leader (probed w st) <> Some c.
Proof.
  intros Hpr. apply promotes_inv in Hpr. destruct Hpr as [Hp Hb].
  destruct (get_best_candidate_in _ _ Hb) as [Hin Hh].
  repeat split; try assumption.
  - rewrite get_best_candidate_lowest in Hb. now apply lowest_some.
  - intros Hl. rewrite Hl, Hb, (policy_leader_up cfg _ _ c c Hh) in Hp.
    destruct (failback_enabled cfg); [|discriminate].
    unfold order_lt in Hp. destruct (failover_order c) as [x|]; [|discriminate].
    rewrite Z.ltb_irrefl in Hp. discriminate.
Qed.

Lemma promoted_not_leader_witness :
  promotes
    (cycle Sample.default_config (Sample.all_up 100)
       (initial_state Sample.failback_nodes))
    reason_failback (set_healthy true Sample.node0) /\
  get_current_leader
    (probed (Sample.all_up 100) (initial_state Sample.failback_nodes))
  <> Some (set_healthy true Sample.node0).
Proof.
  assert (H : promotes
    (cycle Sample.default_config (Sample.all_up 100)
       (initial_state Sample.failback_nodes))
    reason_failback (set_healthy true Sample.node0)).
  { eexists; eexists; reflexivity. }
  split; [exact H|].
  apply (promoted_not_leader _ _ _ _ _ H).
Defined.

(** ** Promotion and the Leader Locator *)

Lemma update_roles_leaders (ns : list node) (c : node) :
  NoDup (map name ns) -> In c ns ->
  filter is_leader (update_roles ns (name c)) = [set_role "leader" c].
Proof.
  induction ns as [|n ns IH]; simpl; intros Hnd Hin; [destruct Hin|].
  inversion Hnd as [|? ? Hnotin Hnd']; subst.
  destruct (Py.eqb_ostr (name n) (name c)) eqn:E.
  - apply eqb_ostr_eq in E. destruct Hin as [->|Hin].
    + simpl. now rewrite (update_roles_no_match ns (name c) Hnotin).
    + exfalso. apply Hnotin. rewrite E. now apply in_map.
  - destruct Hin as [->|Hin]; [now rewrite eqb_ostr_refl in E|].
    simpl. now apply IH.
Qed.

(** X8. When node names are unique, a pass whose promotion command
    succeeds ends in a state whose Leader Locator answer is the promoted
    node, which is healthy; every other node has the role [replica]. *)
Theorem promotion_installs_leader (cfg : config) (w : world) (st : state)
  (reason : string) (c : node) :
  NoDup (map name (nodes st)) ->
  promotes (cycle cfg w st) reason c ->
  promote_node w = true ->
  exists st' tr,
    cycle cfg w st = inr (st', tr) /\
    get_current_leader (nodes st') = Some (set_role "leader" c) /\
    is_healthy (set_role "leader" c) = true /\
    (forall n, In n (nodes st') -> n <> set_role "leader" c ->
       role n = Some "replica").
Proof.
  intros Hnd Hpr Hok. apply promotes_inv in Hpr. destruct Hpr as [Hp Hb].
  destruct (get_best_candidate_in _ _ Hb) as [Hin Hh].
  assert (Hnd' : NoDup (map name (probed w st)))
    by (unfold probed; now rewrite probe_from_name).
  assert (Hf := update_roles_leaders (probed w st) c Hnd' Hin).
  rewrite (cycle_promote cfg w st reason c Hp Hb), Hok.
  eexists; eexists. split; [reflexivity|]. simpl. split; [|split].
  - unfold get_current_leader. now rewrite Hf.
  - exact Hh.
  - intros n Hn Hne.
    destruct (is_leader n) eqn:El.
    + exfalso. apply Hne.
      assert (Hnf : In n (filter is_leader (update_roles (probed w st) (name c))))
        by (apply filter_In; now split).
      rewrite Hf in Hnf. destruct Hnf as [<-|[]]. reflexivity.
    + unfold update_roles in Hn. apply in_map_iff in Hn.
      destruct Hn as (m & <- & _).
      destruct (Py.eqb_ostr (name m) (name c)); [discriminate El|reflexivity].
Qed.

Lemma promotion_installs_leader_witness :
  NoDup (map name Sample.default_nodes) /\
  exists st' tr,
    cycle Sample.default_config (Sample.first_down 100)
      (initial_state Sample.default_nodes) = inr (st', tr) /\
    get_current_leader (nodes st')
    = Some (set_role "leader" (set_healthy true Sample.node2)).
Proof.
  assert (Hnd : NoDup (map name Sample.default_nodes)).
  { simpl. repeat constructor; simpl; intuition discriminate. }
  split; [exact Hnd|].
  assert (H : promotes
    (cycle Sample.default_config (Sample.first_down 100)
       (initial_state Sample.default_nodes))
    reason_leader_down (set_healthy true Sample.node2)).
  { eexists; eexists; reflexivity. }
  destruct (promotion_installs_leader Sample.default_config
              (Sample.first_down 100) (initial_state Sample.default_nodes)
              reason_leader_down (set_healthy true Sample.node2)
              Hnd H eq_refl) as (st' & tr & Hc & Hl & _).
  exists st', tr. now split.
Defined.

(** X11. Role updates compose by overwriting: updating for one name and
    then for another leaves the roles of updating for the second alone;
    in particular a repeated update changes nothing more. *)
Theorem update_roles_last_wins (ns : list node) (a b : option string) :
  update_roles (update_roles ns a) b = update_roles ns b.
Proof.
  unfold update_roles. rewrite map_map. apply map_ext. intros n.
  destruct (Py.eqb_ostr (name n) a); simpl;
    now destruct (Py.eqb_ostr (name n) b).
Qed.

(** ** Invariants of the loop *)

Lemma cycle_static (cfg : config) (w : world) (st st' : state)
  (tr : list event) :
  cycle cfg w st = inr (st', tr) ->
  map static_fields (nodes st') = map static_fields (nodes st).
Proof.
  intros H. apply cycle_inr_full in H.
  destruct H as [(-> & _)|(reason & c & _ & [(_ & -> & _)|(_ & -> & _)])];
    simpl; try rewrite update_roles_static; apply probe_from_static.
Qed.

(** X9. Over any number of passes the loop keeps the name, host, port and
    failover order of the node at every position, hence the number of
    nodes and the uniqueness of their names. *)
Theorem run_keeps_static_fields (cfg : config) (ws : list world)
  (st st' : state) (tr : list event) :
  run cfg ws st = inr (st', tr) ->
  map static_fields (nodes st') = map static_fields (nodes st) /\
  List.length (nodes st') = List.length (nodes st) /\
  (NoDup (map name (nodes st)) -> NoDup (map name (nodes st'))).
Proof.
  intros H.
  assert (Hs : map static_fields (nodes st') = map static_fields (nodes st)).
  { revert st st' tr H. induction ws as [|w ws IH]; simpl; intros st st' tr H.
    - now injection H as <- _.
    - destruct (cycle cfg w st) as [e|[st1 tr1]] eqn:Hc; [discriminate|].
      destruct (run cfg ws st1) as [e|[st2 tr2]] eqn:Hr; [discriminate|].
      injection H as <- _. rewrite (IH _ _ _ Hr). now apply (cycle_static cfg w st st1 tr1). }
  split; [exact Hs|]. split.
  - rewrite <- (length_map static_fields (nodes st')), Hs. apply length_map.
  - assert (Hn : map name (nodes st') = map name (nodes st)).
    { assert (Hf : forall l, map name l
                    = map (fun q => fst (fst (fst q))) (map static_fields l))
        by (intros l; rewrite map_map; reflexivity).
      now rewrite (Hf (nodes st')), Hs, <- Hf. }
    now rewrite Hn.
Qed.

Lemma run_keeps_static_fields_witness :
  exists st' tr,
    run Sample.default_config [Sample.first_down 100; Sample.all_up 200]
      (initial_state Sample.default_nodes) = inr (st', tr) /\
    map static_fields (nodes st') = map static_fields Sample.default_nodes.
Proof.
  eexists; eexists. split; [reflexivity|].
  apply (run_keeps_static_fields Sample.default_config
           [Sample.first_down 100; Sample.all_up 200]
           (initial_state Sample.default_nodes) _ _ eq_refl).
Defined.

Lemma cycle_inl_inv (cfg : config) (w : world) (st : state) (e : exn) :
  cycle cfg w st = inl e ->
  promotion_policy cfg (time_time w) (last_promotion_time st)
    (get_current_leader (probed w st)) (get_best_candidate (probed w st))
  = inl e.
Proof.
  unfold cycle. fold (probed w st).
  destruct (promotion_policy _ _ _ _ _) as [e'|[[] r]]; [congruence| |discriminate].
  destruct (get_best_candidate (probed w st)); [|discriminate].
  destruct (promote_node w); discriminate.
Qed.

Lemma cycle_comparison_safe (cfg : config) (w : world) (st : state) :
  ~ In None (map failover_order (nodes st)) \/ failback_enabled cfg = false ->
  cycle cfg w st <> inl TypeError.
Proof.
  intros Hsafe Hc.
  apply cycle_inl_inv in Hc. unfold promotion_policy in Hc.
  destruct (negb _).
  - now destruct (get_best_candidate (probed w st)).
  - destruct (failback_enabled cfg) eqn:Hf; [|discriminate].
    destruct Hsafe as [Hsafe|Hsafe]; [|discriminate].
    destruct (get_best_candidate (probed w st)) as [c|] eqn:Hb; [|discriminate].
    destruct (get_current_leader (probed w st)) as [l|] eqn:Hl; [|discriminate].
    assert (Hin : forall n, In n (probed w st) -> failover_order n <> None).
    { intros n Hn Hnone. apply Hsafe.
      unfold probed in Hn. rewrite <- (probe_from_order w 0 (nodes st)), <- Hnone.
      now apply in_map. }
    apply get_best_candidate_in in Hb.
    rewrite get_current_leader_lowest in Hl.
    apply lowest_some, first_lowest_in in Hl.
    assert (Hc' := Hin c (proj1 Hb)). assert (Hl' := Hin l (proj1 Hl)).
    unfold order_lt in Hc.
    destruct (failover_order c); [|congruence].
    destruct (failover_order l); [|congruence].
    destruct (z <? z0); [destruct (cooldown_over _ _ _)|]; discriminate.
Qed.

Lemma cycle_orders (cfg : config) (w : world) (st st' : state)
  (tr : list event) :
  cycle cfg w st = inr (st', tr) ->
  map failover_order (nodes st') = map failover_order (nodes st).
Proof.
  intros H. apply cycle_inr_full in H.
  destruct H as [(-> & _)|(reason & c & _ & [(_ & -> & _)|(_ & -> & _)])];
    simpl; try rewrite <- update_roles_order; apply probe_from_order.
Qed.

(** X10. When every node carries a [failover_order], or failback is
    disabled, the order comparison of the failback branch never raises
    its [TypeError], in any pass of any run, whatever the probes and the
    commands answer. *)
Theorem order_comparison_never_raises (cfg : config) (ws : list world)
  (st : state) :
  ~ In None (map failover_order (nodes st)) \/ failback_enabled cfg = false ->
  run cfg ws st <> inl TypeError.
Proof.
  revert st. induction ws as [|w ws IH]; simpl; intros st Hsafe; [discriminate|].
  destruct (cycle cfg w st) as [e|[st1 tr1]] eqn:Hc.
  - destruct e. intros _. now apply (cycle_comparison_safe cfg w st Hsafe).
  - assert (Hsafe1 : ~ In None (map failover_order (nodes st1)) \/
                     failback_enabled cfg = false).
    { destruct Hsafe as [Hsafe|Hsafe]; [left|now right].
      now rewrite (cycle_orders cfg w st st1 tr1 Hc). }
    specialize (IH st1 Hsafe1).
    destruct (run cfg ws st1) as [e|[st2 tr2]]; [|discriminate].
    destruct e. exact IH.
Qed.

Lemma order_comparison_never_raises_witness :
  ~ In None (map failover_order Sample.default_nodes) /\
  run Sample.default_config [Sample.first_down 100; Sample.all_up 200]
    (initial_state Sample.default_nodes) <> inl TypeError.
Proof.
  assert (H : ~ In None (map failover_order Sample.default_nodes))
    by (simpl; intuition discriminate).
  split; [exact H|].
  apply (order_comparison_never_raises Sample.default_config
           [Sample.first_down 100; Sample.all_up 200]
           (initial_state Sample.default_nodes) (or_introl H)).
Defined.

(** ** Steady state *)

Lemma stable_pass (cfg : config) (w : world) (st : state) (l : node) :
  get_current_leader (probed w st) = Some l ->
  get_best_candidate (probed w st) = Some l ->
  failover_order l <> None \/ failback_enabled cfg = false ->
  no_action cfg w st.
Proof.
  intros Hl Hb Hsafe.
  destruct (get_best_candidate_in _ _ Hb) as [_ Hh].
  apply (cycle_quiet cfg w st "").
  rewrite Hl, Hb, (policy_leader_up cfg _ _ l l Hh).
  destruct (failback_enabled cfg); [|reflexivity].
  destruct Hsafe as [Hsafe|Hsafe]; [|discriminate].
  unfold order_lt. destruct (failover_order l) as [x|]; [|congruence].
  now rewrite Z.ltb_irrefl.
Qed.

(** X13. Once the declared leader is itself the best candidate (and has a
    failover order, or failback is disabled), the loop is at rest: as long
    as the probes answer the same, any number of passes, at any clock
    readings, run no command and leave roles and clock as they were. *)
Theorem steady_state (cfg : config) (w : world) (ws : list world)
  (st : state) (l : node) :
  get_current_leader (probed w st) = Some l ->
  get_best_candidate (probed w st) = Some l ->
  failover_order l <> None \/ failback_enabled cfg = false ->
  Forall (fun w' => forall i, check_node_health w' i = check_node_health w i) ws ->
  exists st',
    run cfg ws st = inr (st', []) /\
    map role (nodes st') = map role (nodes st) /\
    last_promotion_time st' = last_promotion_time st.
Proof.
  intros Hl Hb Hsafe Hall. revert st Hl Hb.
  induction Hall as [|w' ws Hw' Hall IH]; simpl; intros st Hl Hb.
  - now exists st.
  - assert (Hp : probed w' st = probed w st)
      by (now apply probe_from_ext).
    assert (Hq : no_action cfg w' st)
      by (apply (stable_pass cfg w' st l); rewrite ?Hp; assumption).
    rewrite Hq.
    assert (Hp1 : probed w (mkState (probed w' st) (last_promotion_time st))
                  = probed w st)
      by (unfold probed; simpl; apply probe_from_overwrite).
    destruct (IH (mkState (probed w' st) (last_promotion_time st)))
      as (st' & Hr & Hroles & Hlast); [now rewrite Hp1|now rewrite Hp1|].
    rewrite Hr. exists st'. split; [reflexivity|]. split; [|exact Hlast].
    rewrite Hroles. simpl. apply probe_from_role.
Qed.

Lemma steady_state_witness :
  exists st',
    run Sample.default_config [Sample.all_up 100; Sample.all_up 1000]
      (initial_state Sample.default_nodes) = inr (st', []) /\
    map role (nodes st') = map role Sample.default_nodes /\
    last_promotion_time st' = 0%float.
Proof.
  apply (steady_state Sample.default_config (Sample.all_up 100)
           [Sample.all_up 100; Sample.all_up 1000]
           (initial_state Sample.default_nodes)
           (set_healthy true Sample.node1)).
  - reflexivity.
  - reflexivity.
  - left. discriminate.
  - repeat constructor.
Defined.

(** ** Selection and the order of the node list *)

Lemma NoDup_map_eq (f : node -> Z) (l : list node) (a b : node) :
  NoDup (map f l) -> In a l -> In b l -> f a = f b -> a = b.
Proof.
  induction l as [|x l IH]; simpl; intros Hnd Ha Hb Hf; [destruct Ha|].
  inversion Hnd as [|? ? Hnotin Hnd']; subst.
  destruct Ha as [->|Ha], Hb as [->|Hb].
  - reflexivity.
  - exfalso. apply Hnotin. rewrite Hf. now apply in_map.
  - exfalso. apply Hnotin. rewrite <- Hf. now apply in_map.
  - now apply IH.
Qed.

Lemma lowest_perm (p : node -> bool) (ns ns' : list node) :
  Permutation ns ns' ->
  NoDup (map order_key ns) ->
  lowest p ns = lowest p ns'.
Proof.
  intros Hperm Hnd.
  destruct (lowest p ns) as [c|] eqn:Hc, (lowest p ns') as [c'|] eqn:Hc'.
  - apply lowest_some in Hc, Hc'.
    destruct (first_lowest_in Hc) as [Hin Hp].
    destruct (first_lowest_in Hc') as [Hin' Hp'].
    assert (Hin2 : In c ns') by now apply (Permutation_in _ Hperm).
    assert (Hin2' : In c' ns)
      by now apply (Permutation_in _ (Permutation_sym Hperm)).
    assert (H1 := first_lowest_le c' Hc Hin2' Hp').
    assert (H2 := first_lowest_le c Hc' Hin2 Hp).
    f_equal. apply (NoDup_map_eq order_key ns); try assumption. lia.
  - apply lowest_some, first_lowest_in in Hc. destruct Hc as [Hin Hp].
    rewrite (proj1 (lowest_none p ns') Hc' c) in Hp; [discriminate|].
    now apply (Permutation_in _ Hperm).
  - apply lowest_some, first_lowest_in in Hc'. destruct Hc' as [Hin Hp].
    rewrite (proj1 (lowest_none p ns) Hc c') in Hp; [discriminate|].
    now apply (Permutation_in _ (Permutation_sym Hperm)).
  - reflexivity.
Qed.

(** X12. When no two nodes share an effective failover order, neither
    selector depends on the order in which the nodes are listed. *)
Theorem selection_order_independent (ns ns' : list node) :
  Permutation ns ns' ->
  NoDup (map order_key ns) ->
  get_current_leader ns = get_current_leader ns' /\
  get_best_candidate ns = get_best_candidate ns'.
Proof.
  intros Hperm Hnd.
  rewrite !get_current_leader_lowest, !get_best_candidate_lowest.
  split; now apply lowest_perm.
Qed.

Lemma selection_order_independent_witness :
  Permutation Sample.default_nodes Sample2.shuffled_nodes /\
  NoDup (map order_key Sample.default_nodes) /\
  get_current_leader Sample2.shuffled_nodes = Some Sample.node1.
Proof.
  assert (Hp : Permutation Sample.default_nodes Sample2.shuffled_nodes).
  { apply Permutation_sym.
    apply (Permutation_cons_append [Sample.node1; Sample.node2] Sample.node3). }
  assert (Hn : NoDup (map order_key Sample.default_nodes)).
  { simpl. repeat constructor; simpl; intuition discriminate. }
  split; [exact Hp|]. split; [exact Hn|].
  rewrite <- (proj1 (selection_order_independent _ _ Hp Hn)). reflexivity.
Defined.

(** ** What each selector reads *)

Lemma probe_from_cleared (w : world) (i : nat) (ns : list node) :
  map clear_healthy (probe_from w i ns) = map clear_healthy ns.
Proof.
  revert i. induction ns as [|n ns IH]; simpl; intros i; [reflexivity|].
  now rewrite IH.
Qed.

(** X14. The Leader Locator reads roles and failover orders only: the
    leader found after the health loop is the leader of the nodes as they
    were before it, up to its health flag. The Candidate Selector reads
    health flags and failover orders only: after a role update it finds
    the same node, with the role the update gave it. *)
Theorem selectors_read_their_own_fields (w : world) (st : state)
  (nm : option string) :
  option_map clear_healthy (get_current_leader (probed w st))
  = option_map clear_healthy (get_current_leader (nodes st)) /\
  get_best_candidate (update_roles (probed w st) nm)
  = option_map
      (fun n => if Py.eqb_ostr (name n) nm
                then set_role "leader" n else set_role "replica" n)
      (get_best_candidate (probed w st)).
Proof.
  split.
  - rewrite !get_current_leader_lowest.
    rewrite <- !(lowest_map is_leader clear_healthy) by reflexivity.
    unfold probed. now rewrite probe_from_cleared.
  - rewrite !get_best_candidate_lowest. unfold update_roles.
    apply lowest_map; intros a; now destruct (Py.eqb_ostr (name a) nm).
Qed.
